(** * Verification of the optimization-agent store and the waveform signal view

    Shallow embedding of
    - [src/src/store/optimizationAgentStore.ts] (the run record and the
      stream-update reducer of [startOptimization] / [startTestGen],
      [stopOptimization]),
    - [src/src/api/backendApi.ts] ([OptimizationStream.onmessage], [close]),
    - [src/unnamed/part_003] ([WaveformSignal]: [currentValue], the
      multi-bit value boxes and the hexadecimal value label).

    JavaScript truthiness is written out: a string is truthy iff it is not
    empty, an array is always truthy, [null] / [undefined] are falsy. *)

From Stdlib Require Import String Ascii List ZArith Bool Lia.
From Stdlib Require Import Sorting.Sorted.
Import ListNotations.
Open Scope Z_scope.

(* ------------------------------------------------------------------ *)
(** ** Run record and stream messages *)

Module Agent.

Inductive AgentMode := Optimize | Testgen.
Inductive AgentStatus := Idle | Starting | Running | Completed | Failed.

(** [interface OptimizationRun] *)
Record OptimizationRun := mkRun {
  runId : string;
  mode : AgentMode;
  iteration : Z;
  status : AgentStatus;
  code : string;
  testbenchCode : string;
  lutCount : option Z;
  lutHistory : list Z;
  agentReasoning : string;
  simPassed : bool;
  error : option string;
  done : bool
}.

(** [interface StreamStep]; a [lut_history] field missing from the JSON
    is [undefined], hence [None]. *)
Record StreamStep := mkStep {
  step_iteration : Z;
  step_code : string;
  step_lut_count : option Z;
  step_lut_history : option (list Z);
  step_reasoning : string;
  step_sim_passed : bool;
  step_error : option string;
  step_done : bool
}.

(** [a || b] on strings. *)
Definition str_or (a b : string) : string :=
  if String.eqb a EmptyString then b else a.

(** [a || b] on an optional array: every array is truthy. *)
Definition arr_or (a : option (list Z)) (b : list Z) : list Z :=
  match a with Some l => l | None => b end.

(** Truthiness of [step.error : string | null]. *)
Definition err_truthy (e : option string) : bool :=
  match e with Some s => negb (String.eqb s EmptyString) | None => false end.

(** The body of the [onUpdate] callback, applied to [state.currentRun]
    when it is not null. *)
Definition applyStep (step : StreamStep) (r : OptimizationRun) : OptimizationRun :=
  {| runId := runId r;
     mode := mode r;
     iteration := step_iteration step;
     status := if step_done step
               then (if err_truthy (step_error step) then Failed else Completed)
               else Running;
     code := str_or (step_code step) (code r);
     testbenchCode := testbenchCode r;
     lutCount := step_lut_count step;
     lutHistory := arr_or (step_lut_history step) (lutHistory r);
     agentReasoning := str_or (step_reasoning step) (agentReasoning r);
     simPassed := step_sim_passed step;
     error := step_error step;
     done := step_done step |}.

(** Messages applied in delivery order. *)
Fixpoint applySteps (steps : list StreamStep) (r : OptimizationRun) : OptimizationRun :=
  match steps with
  | [] => r
  | s :: rest => applySteps rest (applyStep s r)
  end.

(** The record installed by [startOptimization] once the run id is known. *)
Definition initialRun (rid design tb : string) : OptimizationRun :=
  {| runId := rid; mode := Optimize; iteration := 0; status := Running;
     code := design; testbenchCode := tb; lutCount := None; lutHistory := [];
     agentReasoning := EmptyString; simPassed := false; error := None;
     done := false |}.

Definition setDone (b : bool) (r : OptimizationRun) : OptimizationRun :=
  {| runId := runId r; mode := mode r; iteration := iteration r;
     status := status r; code := code r; testbenchCode := testbenchCode r;
     lutCount := lutCount r; lutHistory := lutHistory r;
     agentReasoning := agentReasoning r; simPassed := simPassed r;
     error := error r; done := b |}.

(** The series left by a sequence of messages: the [lut_history] of the
    last message that carries one, or the starting series. *)
Fixpoint lastHistory (steps : list StreamStep) (h : list Z) : list Z :=
  match steps with
  | [] => h
  | s :: rest => lastHistory rest (arr_or (step_lut_history s) h)
  end.

End Agent.

(* ------------------------------------------------------------------ *)
(** ** The zustand store and the WebSocket channel *)

Module Store.
Import Agent.

(** The fields of [OptimizationAgentStore] that the run lifecycle touches.
    A stream is known by its identity ([nat]); [closedStreams] lists the
    streams whose [close()] has run. *)
Record Store := mkStore {
  currentRun : option OptimizationRun;
  isStarting : bool;
  isConnected : bool;
  storeError : option string;
  stream : option nat;
  closedStreams : list nat;
  nextStream : nat
}.

(** [onUpdate] as registered by [startOptimization]: it updates whatever
    [state.currentRun] is, and never looks at which stream called it. *)
Definition onUpdate (step : StreamStep) (s : Store) : Store :=
  {| currentRun := option_map (applyStep step) (currentRun s);
     isStarting := isStarting s; isConnected := true;
     storeError := storeError s; stream := stream s;
     closedStreams := closedStreams s; nextStream := nextStream s |}.

(** [onError]: [set({ error, isConnected: false })]. *)
Definition onError (e : string) (s : Store) : Store :=
  {| currentRun := currentRun s; isStarting := isStarting s;
     isConnected := false; storeError := Some e; stream := stream s;
     closedStreams := closedStreams s; nextStream := nextStream s |}.

(** [OptimizationStream.close()]: a second close is a no-op. *)
Definition closeStream (c : nat) (s : Store) : Store :=
  {| currentRun := currentRun s; isStarting := isStarting s;
     isConnected := isConnected s; storeError := storeError s;
     stream := stream s;
     closedStreams := if existsb (Nat.eqb c) (closedStreams s)
                      then closedStreams s else c :: closedStreams s;
     nextStream := nextStream s |}.

(** A WebSocket frame: parsed JSON or a frame [JSON.parse] rejects. *)
Inductive WsMessage := Parsed (d : StreamStep) | Unparseable.

(** [ws.onmessage] of stream [c]: a message whose [error] is truthy goes
    to [onError] and closes the stream, any other parsed message goes to
    [onUpdate]. The handler stays attached to the socket after [close()]. *)
Definition channelMessage (c : nat) (m : WsMessage) (s : Store) : Store :=
  match m with
  | Unparseable => onError "Failed to parse server message" s
  | Parsed d =>
      match step_error d with
      | Some e => if err_truthy (Some e) then closeStream c (onError e s)
                  else onUpdate d s
      | None => onUpdate d s
      end
  end.


(** [stopOptimization]. *)
Definition stopOptimization (s : Store) : Store :=
  let s' := match stream s with Some c => closeStream c s | None => s end in
  {| currentRun := currentRun s'; isStarting := isStarting s';
     isConnected := false; storeError := storeError s'; stream := None;
     closedStreams := closedStreams s'; nextStream := nextStream s' |}.

(** [startOptimization], up to the [await] of the creation request. *)
Definition startBegin (s : Store) : Store :=
  let s' := match stream s with Some c => closeStream c s | None => s end in
  {| currentRun := None; isStarting := true; isConnected := isConnected s';
     storeError := None; stream := stream s';
     closedStreams := closedStreams s'; nextStream := nextStream s' |}.

(** [startOptimization] after the creation request resolved with [rid]:
    the fresh record is installed and a new stream is opened. *)
Definition startResolved (rid design tb : string) (s : Store) : Store :=
  {| currentRun := Some (initialRun rid design tb); isStarting := false;
     isConnected := true; storeError := storeError s;
     stream := Some (nextStream s); closedStreams := closedStreams s;
     nextStream := S (nextStream s) |}.



End Store.

(* ------------------------------------------------------------------ *)
(** ** The waveform signal view ([WaveformSignal] in [part_003]) *)

Module Waveform.

(** One entry of [values: Array<{ time: number; value: string }>]. *)
Record Ev := mkEv { time : Z; value : string }.

(** [[...values].sort((a, b) => a.time - b.time)]: [Array.prototype.sort]
    is stable, so events with equal times keep their input order. *)
Fixpoint insertByTime (e : Ev) (l : list Ev) : list Ev :=
  match l with
  | [] => [e]
  | x :: xs => if time e <=? time x then e :: x :: xs else x :: insertByTime e xs
  end.

Fixpoint sortByTime (l : list Ev) : list Ev :=
  match l with
  | [] => []
  | e :: rest => insertByTime e (sortByTime rest)
  end.

(** The [for (const v of sortedValues)] loop of [currentValue]. *)
Fixpoint scanLast (currentTime : Z) (lastVal : string) (l : list Ev) : string :=
  match l with
  | [] => lastVal
  | v :: vs => if currentTime <? time v then lastVal
               else scanLast currentTime (value v) vs
  end.

(** [currentValue] (the value at the cursor [currentTime]). *)
Definition currentValue (values : list Ev) (currentTime : Z) : string :=
  match values with
  | [] => "X"%string
  | _ :: _ =>
      let sortedValues := sortByTime values in
      let lastVal := match sortedValues with [] => "X"%string | v :: _ => value v end in
      scanLast currentTime lastVal sortedValues
  end.

Fixpoint lastOpt {A} (l : list A) : option A :=
  match l with
  | [] => None
  | [x] => Some x
  | _ :: xs => lastOpt xs
  end.

(** The reading of the spec: the value of the last event, in time-sorted
    order, whose time is at most [t]. *)
Definition lastAtOrBefore (values : list Ev) (t : Z) : option string :=
  option_map value (lastOpt (filter (fun e => time e <=? t) (sortByTime values))).

(** The multi-bit branch: [values.map((v, i) => ...)] with
    [nextTime = values[i + 1]?.time ?? maxTime]; a box is
    [(v.time, nextTime, v.value)] (its pixel geometry is these times
    scaled by [timeScale]). *)
Fixpoint valueBoxes (values : list Ev) (maxTime : Z) : list (Z * Z * string) :=
  match values with
  | [] => []
  | v :: rest =>
      let nextTime := match rest with [] => maxTime | w :: _ => time w end in
      (time v, nextTime, value v) :: valueBoxes rest maxTime
  end.

(** *** [parseInt(s, 2)] and [Number.prototype.toString(16)]

    [None] is [NaN]. The integer is exact; a JavaScript number is exact
    below 2^53, so the model agrees with the source on binary prefixes of
    at most 53 digits. *)

Definition isWhiteSpace (c : ascii) : bool :=
  existsb (Nat.eqb (nat_of_ascii c)) [9; 10; 11; 12; 13; 32]%nat.

Fixpoint trimStart (s : string) : string :=
  match s with
  | String c r => if isWhiteSpace c then trimStart r else s
  | EmptyString => s
  end.

(** The longest prefix of radix-2 digits: its value (accumulated onto
    [acc]) and its length (added to [n]). *)
Fixpoint binDigits (s : string) (acc : Z) (n : nat) : Z * nat :=
  match s with
  | String c r =>
      if ascii_dec c "0" then binDigits r (2 * acc) (S n)
      else if ascii_dec c "1" then binDigits r (2 * acc + 1) (S n)
      else (acc, n)
  | EmptyString => (acc, n)
  end.

Definition parseInt2 (s : string) : option Z :=
  let s1 := trimStart s in
  let '(sign, s2) :=
    match s1 with
    | String c r =>
        if ascii_dec c "-" then (-1, r)
        else if ascii_dec c "+" then (1, r) else (1, s1)
    | EmptyString => (1, s1)
    end in
  let '(v, n) := binDigits s2 0 0 in
  if Nat.eqb n 0 then None else Some (sign * v).

Definition hexDigit (d : Z) : ascii :=
  match String.get (Z.to_nat d) "0123456789abcdef" with
  | Some c => c
  | None => "0"%char
  end.

Fixpoint hexOf (fuel : nat) (n : Z) (acc : string) : string :=
  match fuel with
  | O => acc
  | S f =>
      let acc' := String (hexDigit (n mod 16)) acc in
      if n <? 16 then acc' else hexOf f (n / 16) acc'
  end.

(** Hexadecimal digits of a non-negative integer, no leading zeros. *)
Definition hexNat (n : Z) : string := hexOf (S (Z.to_nat (Z.log2 n))) n EmptyString.

Definition numberToString16 (x : option Z) : string :=
  match x with
  | None => "NaN"
  | Some n => if n <? 0 then String "-" (hexNat (- n)) else hexNat n
  end.

Definition upperAscii (c : ascii) : ascii :=
  let n := nat_of_ascii c in
  if ((97 <=? n) && (n <=? 122))%nat then ascii_of_nat (n - 32) else c.

Fixpoint toUpperCase (s : string) : string :=
  match s with
  | String c r => String (upperAscii c) (toUpperCase r)
  | EmptyString => EmptyString
  end.

(** The value label: [width > 1 ? `0x${parseInt(currentValue, 2)
    .toString(16).toUpperCase()}` : currentValue]. *)
Definition valueLabel (width : Z) (currentValue : string) : string :=
  if 1 <? width
  then String.append "0x" (toUpperCase (numberToString16 (parseInt2 currentValue)))
  else currentValue.

(** The numeric value of a string of binary digits, most significant
    first (the reading of the spec). *)
Definition bitOf (c : ascii) : Z := if ascii_dec c "1" then 1 else 0.

Fixpoint bitsValue (s : string) : Z :=
  match s with
  | String c r => bitOf c * 2 ^ Z.of_nat (String.length r) + bitsValue r
  | EmptyString => 0
  end.

Fixpoint allBinary (s : string) : bool :=
  match s with
  | String c r => (if ascii_dec c "0" then true else if ascii_dec c "1" then true else false)
                  && allBinary r
  | EmptyString => true
  end.

(** The order [sortByTime] sorts by. *)
Definition timeLe (a b : Ev) : Prop := time a <= time b.

End Waveform.

(* ------------------------------------------------------------------ *)
(** ** Concrete runs and event lists used below *)

Module Fixtures.
Import Agent Store Waveform.

(** A record that a terminal message has already locked. *)
Definition finishedRun : OptimizationRun :=
  applyStep (mkStep 3 "module m; endmodule" (Some 40) (Some [50; 40])
                    "done" true None true)
            (initialRun "run-1" "module m; endmodule" "tb").

Definition lateStep : StreamStep :=
  mkStep 4 EmptyString (Some 30) (Some [30]) EmptyString false None false.

Definition emptyStore : Store :=
  {| currentRun := None; isStarting := false; isConnected := false;
     storeError := None; stream := None; closedStreams := []; nextStream := 0 |}.

(** A run started from the empty store: its stream is stream 0. *)
Definition liveStore : Store :=
  startResolved "run-1" "module m; endmodule" "tb" (startBegin emptyStore).


Definition roundTripEvents : list Ev := [mkEv 0 "0"; mkEv 10 "1"; mkEv 20 "0"].

End Fixtures.

(* ------------------------------------------------------------------ *)
(** ** The rest of the store's run lifecycle *)

Module StoreOps.
Import Agent Store.

(** The [onClose] callback registered by [startOptimization]:
    [set({ isConnected: false }); get()._setStream(null)]. It clears
    [_stream] whatever stream it holds. *)
Definition onClose (s : Store) : Store :=
  {| currentRun := currentRun s; isStarting := isStarting s;
     isConnected := false; storeError := storeError s; stream := None;
     closedStreams := closedStreams s; nextStream := nextStream s |}.

(** The [catch] of [startOptimization] when the creation request rejects
    with message [msg]. *)
Definition startRejected (msg : string) (s : Store) : Store :=
  {| currentRun := currentRun s; isStarting := false; isConnected := false;
     storeError := Some msg; stream := stream s;
     closedStreams := closedStreams s; nextStream := nextStream s |}.





(** Stream identities handed out so far are below [nextStream]. *)
Definition streamsFresh (s : Store) : Prop :=
  Forall (fun c => (c < nextStream s)%nat) (closedStreams s) /\
  (forall c, stream s = Some c -> (c < nextStream s)%nat).

End StoreOps.

(* ------------------------------------------------------------------ *)
(** ** The waveform store ([useWaveformStore] in [backendApi.ts]) *)

Module WaveStore.
Import Waveform.

(** [interface VcdSignal]. *)
Record VcdSignal := mkSig { sigName : string; sigWidth : Z; sigValues : list Ev }.

(** [interface WaveformState]. *)
Record WaveformState := mkWave {
  signals : list VcdSignal;
  vcdPath : option string;
  simPassed : bool;
  currentTime : Z;
  maxTime : Z;
  isLoading : bool;
  werror : option string
}.

(** The fields of [VcdResult] that the store reads; absent fields are
    [None]. *)
Record VcdResult := mkVcd {
  res_success : bool;
  res_vcd_path : option string;
  res_signals : option (list VcdSignal);
  res_error : option string
}.

Definition initialWaveformState : WaveformState :=
  {| signals := []; vcdPath := None; simPassed := false; currentTime := 0;
     maxTime := 0; isLoading := false; werror := None |}.

(** [result.vcd_path || null]. *)
Definition pathOrNull (p : option string) : option string :=
  match p with Some s => if String.eqb s EmptyString then None else Some s | None => None end.

(** The inner [sig.values.forEach((v) => { if (v.time > maxTime) maxTime = v.time; })]. *)
Definition scanMaxTime (m : Z) (vs : list Ev) : Z :=
  fold_left (fun m v => if m <? time v then time v else m) vs m.

(** [let maxTime = 0; result.signals.forEach(...)]. *)
Definition signalsMaxTime (sigs : list VcdSignal) : Z :=
  fold_left (fun m sig => scanMaxTime m (sigValues sig)) sigs 0.

(** [runSimulationWithVcd] once [backendApi.runWithVcd] resolved. *)
Definition runResolved (res : VcdResult) (w : WaveformState) : WaveformState :=
  if Agent.err_truthy (res_error res) then
    {| signals := signals w; vcdPath := vcdPath w; simPassed := simPassed w;
       currentTime := currentTime w; maxTime := maxTime w; isLoading := false;
       werror := res_error res |}
  else
    let sigs := match res_signals res with Some l => l | None => [] end in
    {| signals := sigs; vcdPath := pathOrNull (res_vcd_path res);
       simPassed := res_success res; currentTime := 0;
       maxTime := match res_signals res with Some l => signalsMaxTime l | None => 0 end;
       isLoading := false; werror := None |}.

(** The first [set] of [runSimulationWithVcd]:
    [{ ...get().waveform, isLoading: true, error: null }]. *)
Definition runBegin (w : WaveformState) : WaveformState :=
  {| signals := signals w; vcdPath := vcdPath w; simPassed := simPassed w;
     currentTime := currentTime w; maxTime := maxTime w; isLoading := true;
     werror := None |}.

(** The [catch] of [runSimulationWithVcd] when [backendApi.runWithVcd]
    rejects with message [msg]. *)
Definition runRejected (msg : string) (w : WaveformState) : WaveformState :=
  {| signals := signals w; vcdPath := vcdPath w; simPassed := simPassed w;
     currentTime := currentTime w; maxTime := maxTime w; isLoading := false;
     werror := Some msg |}.

(** [setCurrentTime]: [Math.max(0, Math.min(time, waveform.maxTime))]. *)
Definition setCurrentTime (t : Z) (w : WaveformState) : WaveformState :=
  {| signals := signals w; vcdPath := vcdPath w; simPassed := simPassed w;
     currentTime := Z.max 0 (Z.min t (maxTime w)); maxTime := maxTime w;
     isLoading := isLoading w; werror := werror w |}.

(** A one-bit clock captured over ten time units. *)
Definition captureSignal : VcdSignal := mkSig "clk" 1 [mkEv 0 "0"; mkEv 5 "1"; mkEv 10 "0"].

End WaveStore.

(* ------------------------------------------------------------------ *)
(** ** The single-bit trace ([pathD] of [WaveformSignal]) *)

Module SinglePath.
Import Waveform.

Definition SIGNAL_HEIGHT : Z := 32.

(** One entry of [points]: [`M ${x} ${y}`] or [`L ${x} ${y}`]. The path
    string is [points.join(' ')], then [.replace(/^L/, 'M')]. *)
Inductive PathCmd := Move (x y : Z) | Line (x y : Z).

Definition cmdX (c : PathCmd) : Z := match c with Move x _ | Line x _ => x end.

Definition isMove (c : PathCmd) : bool := match c with Move _ _ => true | Line _ _ => false end.

(** [v.value === '1' ? 4 : v.value === '0' ? SIGNAL_HEIGHT - 8 : SIGNAL_HEIGHT / 2]. *)
Definition levelY (v : string) : Z :=
  if String.eqb v "1" then 4
  else if String.eqb v "0" then SIGNAL_HEIGHT - 8 else SIGNAL_HEIGHT / 2.

(** The [sortedValues.forEach((v, i) => ...)] loop, from index [i] with
    [lastValue] carried along. *)
Fixpoint pathPoints (maxTime timeScale : Z) (lastValue : option string) (i : nat)
    (l : list Ev) : list PathCmd :=
  match l with
  | [] => []
  | v :: rest =>
      let x := time v * timeScale in
      let y := levelY (value v) in
      let head :=
        match lastValue with
        | Some lv =>
            if negb (String.eqb lv (value v)) then [Line x (levelY lv); Line x y]
            else if Nat.eqb i 0 then [Move x y] else []
        | None => if Nat.eqb i 0 then [Move x y] else []
        end in
      let nextTime := match rest with [] => maxTime | w :: _ => time w end in
      head ++ [Line (nextTime * timeScale) y]
           ++ pathPoints maxTime timeScale (Some (value v)) (S i) rest
  end.

(** [pathD]: no points unless [width === 1] and [values] is non-empty. *)
Definition pathD (width : Z) (values : list Ev) (maxTime timeScale : Z) : list PathCmd :=
  match values with
  | [] => []
  | _ :: _ => if Z.eqb width 1 then pathPoints maxTime timeScale None 0 (sortByTime values)
              else []
  end.

(** Adjacent value changes along a list of values. *)
Fixpoint changes (l : list string) : nat :=
  match l with
  | a :: ((b :: _) as t) => ((if String.eqb a b then 0 else 1) + changes t)%nat
  | _ => 0%nat
  end.

End SinglePath.

(* ------------------------------------------------------------------ *)
(** ** The LUT statistics store ([useLutStatsStore] in [backendApi.ts]) *)

Module LutStatsStore.
Import Agent.

(** [interface LutStats]. *)
Record LutStats := mkStats {
  originalLuts : Z;
  currentLuts : Z;
  targetLuts : Z;
  history : list Z;
  reasoning : list string
}.

(** [a || b] where [a : number | undefined]: [0] and [undefined] are
    falsy. *)
Definition num_or (a : option Z) (b : Z) : Z :=
  match a with Some x => if Z.eqb x 0 then b else x | None => b end.

Section Update.

(** [Math.floor(x * 0.7)] computed on a double, left abstract. *)
Variable floor07 : Z -> Z.

(** [updateFromRun]. *)
Definition updateFromRun (step : StreamStep) (current : option LutStats) : LutStats :=
  let lutHistory := arr_or (step_lut_history step) [] in
  {| originalLuts := num_or (option_map originalLuts current) (num_or (hd_error lutHistory) 0);
     currentLuts := num_or (step_lut_count step) (num_or (Waveform.lastOpt lutHistory) 0);
     targetLuts := num_or (option_map targetLuts current)
                          (floor07 (num_or (hd_error lutHistory) 100));
     history := lutHistory;
     reasoning := match current with Some c => reasoning c | None => [] end
                  ++ (if String.eqb (step_reasoning step) EmptyString then []
                      else [step_reasoning step]) |}.

Fixpoint updatesFromRun (steps : list StreamStep) (current : option LutStats) : option LutStats :=
  match steps with
  | [] => current
  | s :: rest => updatesFromRun rest (Some (updateFromRun s current))
  end.

End Update.

End LutStatsStore.

(* ------------------------------------------------------------------ *)
(** ** The top-function choice of [extractTopFunction]

    The regular expression is not embedded: [captures] are its capture
    groups [match[1]] in match order. What follows is the code that
    filters and picks among them. *)

Module TopFunction.

Definition startsWithUnderscore (s : string) : bool :=
  match s with String c _ => if ascii_dec c "_" then true else false | EmptyString => false end.

(** The [while] loop: [if (funcName && !funcName.startsWith('_')) functions.push(funcName)]. *)
Definition collectFunctions (captures : list string) : list string :=
  filter (fun f => negb (String.eqb f EmptyString) && negb (startsWithUnderscore f)) captures.

(** [functions.find(f => f !== 'main')], else [functions[0] || 'main']. *)
Definition pickTopFunction (captures : list string) : string :=
  let functions := collectFunctions captures in
  match find (fun f => negb (String.eqb f "main")) functions with
  | Some f => f
  | None => match functions with
            | f :: _ => Agent.str_or f "main"
            | [] => "main"
            end
  end.

End TopFunction.

(* ================================================================== *)
(** * Properties of the run record *)

Module AgentFacts.
Import Agent Fixtures.

Lemma str_or_idem (a b : string) : str_or a (str_or a b) = str_or a b.
Proof. unfold str_or; destruct (String.eqb a EmptyString) eqn:E; rewrite ?E; auto. Qed.

Lemma arr_or_idem (a : option (list Z)) (b : list Z) : arr_or a (arr_or a b) = arr_or a b.
Proof. destruct a; reflexivity. Qed.

Lemma applySteps_app (ms1 ms2 : list StreamStep) (r : OptimizationRun) :
  applySteps (ms1 ++ ms2) r = applySteps ms2 (applySteps ms1 r).
Proof. revert r; induction ms1 as [|m ms IH]; intro r; simpl; auto. Qed.

(** C1 (counterexample): a record with [done = true] is still rewritten by
    a further message: [finishedRun] is terminal, and the late message
    sets its iteration to 4, reopens it ([done = false], status
    [Running]). *)
Lemma terminal_lock_counterexample :
  done finishedRun = true /\ status finishedRun = Completed /\
  applyStep lateStep finishedRun <> finishedRun /\
  iteration (applyStep lateStep finishedRun) = 4 /\
  done (applyStep lateStep finishedRun) = false /\
  status (applyStep lateStep finishedRun) = Running.
Proof.
  repeat split; try reflexivity.
  intro H; apply (f_equal iteration) in H; discriminate H.
Qed.

(** C1 (amended): the reducer does not consult [done]: a terminal record
    is updated exactly as the same record with [done = false] would be.
    Applying the same message twice gives the record once applied
    (duplicate delivery is idempotent). *)
Theorem applyStep_ignores_done_and_is_idempotent (r : OptimizationRun) (m : StreamStep) :
  applyStep m (setDone true r) = applyStep m (setDone false r) /\
  applyStep m (applyStep m r) = applyStep m r.
Proof.
  split; [reflexivity|].
  unfold applyStep; simpl; rewrite str_or_idem, str_or_idem, arr_or_idem.
  reflexivity.
Qed.

(** C2 (counterexample): a message with a lower iteration lowers the
    recorded iteration (4 after 3 is fine, 2 after 4 goes back to 2). *)
Lemma iteration_regresses_counterexample :
  let r := applyStep lateStep finishedRun in
  iteration r = 4 /\
  iteration (applyStep (mkStep 2 EmptyString None None EmptyString false None false) r) = 2.
Proof. split; reflexivity. Qed.

(** C2 (amended): iteration is last-write-wins: after any non-empty
    sequence of messages it is the iteration of the last message, not the
    maximum seen. *)
Theorem iteration_is_last_message (ms : list StreamStep) (m : StreamStep) (r : OptimizationRun) :
  iteration (applySteps (ms ++ [m]) r) = step_iteration m.
Proof. rewrite applySteps_app; reflexivity. Qed.

(** C3 (counterexample): the series is replaced, not appended: an empty
    [lut_history] (an array, so truthy) truncates [[50; 40]] to [[]], and
    [[30]] rewrites index 0. *)
Lemma series_not_append_only_counterexample :
  lutHistory finishedRun = [50; 40] /\
  lutHistory (applyStep (mkStep 4 EmptyString None (Some []) EmptyString false None false)
                        finishedRun) = [] /\
  lutHistory (applyStep lateStep finishedRun) = [30].
Proof. repeat split; reflexivity. Qed.

(** C3 (amended): after any sequence of messages the series is the
    [lut_history] of the last message that carries one (whatever its
    length or contents), or the starting series when none does. *)
Theorem series_is_last_snapshot (ms : list StreamStep) (r : OptimizationRun) :
  lutHistory (applySteps ms r) = lastHistory ms (lutHistory r).
Proof.
  revert r; induction ms as [|m ms IH]; intro r; simpl; [reflexivity|].
  rewrite IH; reflexivity.
Qed.

End AgentFacts.

(* ================================================================== *)
(** * Properties of the store and its stream *)

Module StoreFacts.
Import Agent Store Fixtures.


Lemma currentRun_closeStream (c : nat) (s : Store) :
  currentRun (closeStream c s) = currentRun s.
Proof. reflexivity. Qed.

Lemma closeStream_in (c : nat) (s : Store) : In c (closedStreams (closeStream c s)).
Proof.
  simpl; destruct (existsb (Nat.eqb c) (closedStreams s)) eqn:E.
  - apply existsb_exists in E as [x [Hx Hc]]; apply Nat.eqb_eq in Hc; subst; exact Hx.
  - left; reflexivity.
Qed.







End StoreFacts.

(* ================================================================== *)
(** * Properties of the waveform view *)

Module WaveformFacts.
Import Waveform Fixtures.

Lemma In_insertByTime (x e : Ev) (l : list Ev) :
  In x (insertByTime e l) <-> x = e \/ In x l.
Proof.
  induction l as [|y ys IH]; simpl.
  - intuition.
  - destruct (time e <=? time y); simpl; rewrite ?IH; intuition.
Qed.

Lemma In_sortByTime (x : Ev) (l : list Ev) : In x (sortByTime l) <-> In x l.
Proof.
  induction l as [|e l IH]; simpl; [tauto|].
  rewrite In_insertByTime, IH; intuition.
Qed.

Lemma Forall_insertByTime (P : Ev -> Prop) (e : Ev) (l : list Ev) :
  P e -> Forall P l -> Forall P (insertByTime e l).
Proof.
  intros He Hl; induction Hl as [|y ys Hy Hys IH]; simpl; [auto|].
  destruct (time e <=? time y); auto.
Qed.

Lemma sorted_insertByTime (e : Ev) (l : list Ev) :
  StronglySorted timeLe l -> StronglySorted timeLe (insertByTime e l).
Proof.
  induction 1 as [|y ys Hs IH Hf]; simpl.
  - repeat constructor.
  - destruct (time e <=? time y) eqn:E.
    + apply Z.leb_le in E.
      constructor; [constructor; auto|].
      constructor; [exact E|].
      eapply Forall_impl; [|exact Hf]; unfold timeLe; intros; lia.
    + apply Z.leb_gt in E.
      constructor; [exact IH|].
      apply Forall_insertByTime; [unfold timeLe; lia|exact Hf].
Qed.

Lemma sorted_sortByTime (l : list Ev) : StronglySorted timeLe (sortByTime l).
Proof.
  induction l as [|e l IH]; simpl; [constructor|].
  apply sorted_insertByTime, IH.
Qed.

Lemma lastOpt_cons {A} (x : A) (l : list A) :
  lastOpt (x :: l) = match lastOpt l with Some y => Some y | None => Some x end.
Proof.
  revert x; induction l as [|y ys IH]; intro x; [reflexivity|].
  change (lastOpt (x :: y :: ys)) with (lastOpt (y :: ys)).
  rewrite IH; destruct (lastOpt ys); reflexivity.
Qed.

Lemma lastOpt_nonempty {A} (x : A) (l : list A) : lastOpt (x :: l) <> None.
Proof. rewrite lastOpt_cons; destruct (lastOpt l); discriminate. Qed.

Lemma filter_all_later (t : Z) (l : list Ev) :
  Forall (fun b => t < time b) l -> filter (fun e => time e <=? t) l = [].
Proof.
  induction 1 as [|y ys Hy Hys IH]; simpl; [reflexivity|].
  destruct (time y <=? t) eqn:E; [apply Z.leb_le in E; lia|exact IH].
Qed.

(** On a time-sorted list the scan stops at the last event at or before
    [t]; it returns its seed when there is none. *)
Lemma scanLast_sorted (t : Z) (lv : string) (l : list Ev) :
  StronglySorted timeLe l ->
  scanLast t lv l =
  match lastOpt (filter (fun e => time e <=? t) l) with
  | Some v => value v | None => lv end.
Proof.
  intro Hs; revert lv; induction Hs as [|v vs Hs IH Hf]; intro lv; [reflexivity|].
  simpl. destruct (t <? time v) eqn:Lt.
  - apply Z.ltb_lt in Lt.
    assert (Hle : (time v <=? t) = false) by (apply Z.leb_gt; lia).
    rewrite Hle, filter_all_later; [reflexivity|].
    eapply Forall_impl; [|exact Hf]; unfold timeLe; intros; lia.
  - apply Z.ltb_ge in Lt.
    assert (Hle : (time v <=? t) = true) by (apply Z.leb_le; lia).
    rewrite Hle, lastOpt_cons, IH.
    destruct (lastOpt (filter (fun e => time e <=? t) vs)); reflexivity.
Qed.

(** C6: whenever some event lies at or before [t], the value at [t] is the
    value of the last event, in time-sorted order, at or before [t]; for
    the events [(0,0), (10,1), (20,0)] the values at 5, 10, 25 and 30 are
    0, 1, 0 and 0. *)
Theorem currentValue_last_at_or_before (values : list Ev) (t : Z)
  (H : exists e, In e values /\ time e <= t) :
  Some (currentValue values t) = lastAtOrBefore values t /\
  map (currentValue roundTripEvents) [5; 10; 25; 30] = ["0"%string; "1"%string; "0"%string; "0"%string].
Proof.
  split; [|reflexivity].
  destruct H as [e [Hin Ht]].
  assert (Hf : In e (filter (fun x => time x <=? t) (sortByTime values))).
  { apply filter_In; split; [apply In_sortByTime, Hin|apply Z.leb_le, Ht]. }
  unfold currentValue, lastAtOrBefore.
  destruct values as [|v0 vs]; [destruct Hin|].
  destruct (sortByTime (v0 :: vs)) as [|w ws] eqn:Es; [destruct Hf|].
  rewrite scanLast_sorted by (rewrite <- Es; apply sorted_sortByTime).
  destruct (filter (fun x => time x <=? t) (w :: ws)) as [|f fs] eqn:Ef; [destruct Hf|].
  destruct (lastOpt (f :: fs)) eqn:El; [reflexivity|].
  exfalso; exact (lastOpt_nonempty f fs El).
Qed.

Lemma currentValue_last_at_or_before_witness :
  (exists e, In e roundTripEvents /\ time e <= 25) /\
  Some (currentValue roundTripEvents 25) = lastAtOrBefore roundTripEvents 25.
Proof.
  assert (H : exists e, In e roundTripEvents /\ time e <= 25).
  { exists (mkEv 20 "0"); split; [simpl; auto|simpl; lia]. }
  split; [exact H|].
  exact (proj1 (currentValue_last_at_or_before roundTripEvents 25 H)).
Defined.

(** C7 (counterexample): for the single event [(10, "1")] the value at
    time 5, before the first event, is ["1"], not the sentinel ["X"]. *)
Lemma currentValue_before_first_counterexample :
  currentValue [mkEv 10 "1"] 5 = "1"%string /\ currentValue [mkEv 10 "1"] 5 <> "X"%string.
Proof. split; [reflexivity|discriminate]. Qed.

(** C7 (amended): the empty list gives ["X"] at every time; for a
    non-empty list and a time before its first event (in time order) the
    value is that first event's value. The function is total. *)
Theorem currentValue_empty_and_before_first (values : list Ev) (t : Z) (e : Ev) (rest : list Ev)
  (Hs : sortByTime values = e :: rest) (Ht : t < time e) :
  currentValue [] t = "X"%string /\ currentValue values t = value e.
Proof.
  split; [reflexivity|].
  unfold currentValue; destruct values as [|v0 vs]; [discriminate Hs|].
  rewrite Hs; simpl.
  destruct (t <? time e) eqn:E; [reflexivity|apply Z.ltb_ge in E; lia].
Qed.

Lemma currentValue_empty_and_before_first_witness :
  sortByTime [mkEv 30 "0"; mkEv 10 "1"] = [mkEv 10 "1"; mkEv 30 "0"] /\ 5 < 10 /\
  currentValue [] 5 = "X"%string /\ currentValue [mkEv 30 "0"; mkEv 10 "1"] 5 = "1"%string.
Proof.
  split; [reflexivity|split; [lia|]].
  exact (currentValue_empty_and_before_first [mkEv 30 "0"; mkEv 10 "1"] 5 (mkEv 10 "1")
           [mkEv 30 "0"] eq_refl ltac:(simpl; lia)).
Defined.

(** C8 (code bug): the multi-bit boxes are built from [values] as given,
    without the defensive sort of the single-bit path and of
    [currentValue]: the unsorted events [(5,"10"), (0,"01")] give a box
    from 5 back to 0 and one from 0 to 8, which overlap. The sorted input
    gives the boxes of the spec. *)
Theorem valueBoxes_unsorted_input :
  valueBoxes [mkEv 5 "10"; mkEv 0 "01"] 8 = [(5, 0, "10"%string); (0, 8, "01"%string)] /\
  valueBoxes (sortByTime [mkEv 5 "10"; mkEv 0 "01"]) 8
    = [(0, 5, "01"%string); (5, 8, "10"%string)] /\
  valueBoxes [mkEv 0 "01"; mkEv 5 "10"] 8 = [(0, 5, "01"%string); (5, 8, "10"%string)].
Proof. repeat split; reflexivity. Qed.

Lemma bitsValue_nonneg (s : string) : 0 <= bitsValue s.
Proof.
  induction s as [|c r IH]; simpl; [lia|].
  assert (0 <= bitOf c) by (unfold bitOf; destruct (ascii_dec c "1"); lia).
  assert (0 <= 2 ^ Z.of_nat (String.length r)) by (apply Z.pow_nonneg; lia).
  nia.
Qed.

Lemma binDigits_app (p rest : string) (acc : Z) (n : nat) :
  allBinary p = true ->
  binDigits (String.append p rest) acc n =
  binDigits rest (acc * 2 ^ Z.of_nat (String.length p) + bitsValue p) (n + String.length p)%nat.
Proof.
  revert acc n; induction p as [|c r IH]; intros acc n Hb.
  - cbn [String.append String.length bitsValue].
    change (2 ^ Z.of_nat 0) with 1; f_equal; lia.
  - cbn [allBinary] in Hb; apply andb_prop in Hb as [Hc Hr].
    cbn [String.append binDigits String.length bitsValue].
    rewrite Nat2Z.inj_succ, Z.pow_succ_r by lia.
    destruct (ascii_dec c "0") as [E0|N0]; cbn iota beta.
    + subst c; rewrite IH by exact Hr.
      replace (bitOf "0") with 0 by reflexivity.
      f_equal; lia.
    + destruct (ascii_dec c "1") as [E1|N1]; cbn iota beta; [|discriminate Hc].
      subst c; rewrite IH by exact Hr.
      replace (bitOf "1") with 1 by reflexivity.
      f_equal; lia.
Qed.

(** A string that does not start with a binary digit stops the digit scan. *)
Definition stopsBinary (rest : string) : Prop :=
  match rest with
  | String d _ => d <> "0"%char /\ d <> "1"%char
  | EmptyString => True
  end.

Lemma binDigits_stop (rest : string) (acc : Z) (n : nat) :
  stopsBinary rest -> binDigits rest acc n = (acc, n).
Proof.
  destruct rest as [|d r]; [reflexivity|]; intros [H0 H1]; cbn [binDigits].
  destruct (ascii_dec d "0"); [contradiction|].
  destruct (ascii_dec d "1"); [contradiction|reflexivity].
Qed.

Lemma parseInt2_prefix (p rest : string) :
  allBinary p = true -> p <> EmptyString -> stopsBinary rest ->
  parseInt2 (String.append p rest) = Some (bitsValue p).
Proof.
  intros Hb Hn Hs; destruct p as [|c r]; [contradiction|].
  pose proof (binDigits_app (String c r) rest 0 0 Hb) as HB.
  cbn [allBinary] in Hb; apply andb_prop in Hb as [Hc _].
  assert (Hp : parseInt2 (String.append (String c r) rest) =
               let '(v, k) := binDigits (String.append (String c r) rest) 0 0 in
               if Nat.eqb k 0 then None else Some (1 * v)).
  { destruct (ascii_dec c "0") as [E0|N0];
      [|destruct (ascii_dec c "1") as [E1|N1]; [|discriminate Hc]];
      subst c; reflexivity. }
  rewrite Hp, HB, binDigits_stop by exact Hs; cbv beta iota.
  rewrite Nat.add_0_l; cbn [String.length Nat.eqb].
  f_equal; lia.
Qed.

(** C9 (counterexample): the label of ["00000001"] at width 8 is ["0x1"],
    not zero-padded to two digits; ["1x"] contains an unknown marker yet is
    converted numerically (to ["0x1"]), and ["x"] shows ["0xNAN"]. *)
Lemma valueLabel_counterexample :
  valueLabel 8 "00000001" = "0x1"%string /\
  valueLabel 8 "1x" = "0x1"%string /\
  valueLabel 8 "x" = "0xNAN"%string.
Proof. repeat split; reflexivity. Qed.

(** C9 (amended): for width > 1 the label is ["0x"] followed by the
    upper-case hexadecimal of [parseInt(token, 2)], without zero padding.
    A token made of a non-empty binary prefix (at most 53 digits, where
    the JavaScript number is exact) followed by nothing or by a character
    that is not a binary digit (an [x] or [z] among them) shows the value
    of that prefix; a token starting with [x], [X], [z] or [Z] shows
    ["0xNAN"]. For width <= 1 any token is shown as it is. *)
Theorem valueLabel_binary_and_marker (width w1 : Z) (p rest : string) (c : ascii)
  (r t : string)
  (Hw : 1 < width) (Hb : allBinary p = true) (Hn : p <> EmptyString)
  (Hl : (String.length p <= 53)%nat) (Hr : stopsBinary rest)
  (Hc : In c ["x"; "X"; "z"; "Z"]%char) (Hw1 : w1 <= 1) :
  valueLabel width (String.append p rest) = String.append "0x" (toUpperCase (hexNat (bitsValue p))) /\
  valueLabel width (String c r) = "0xNAN"%string /\
  valueLabel w1 t = t.
Proof.
  unfold valueLabel.
  assert (E1 : (1 <? w1) = false) by (apply Z.ltb_ge; exact Hw1).
  apply Z.ltb_lt in Hw; rewrite Hw, E1.
  split; [|split; [|reflexivity]].
  - rewrite (parseInt2_prefix p rest Hb Hn Hr); unfold numberToString16.
    destruct (bitsValue p <? 0) eqn:E; [|reflexivity].
    apply Z.ltb_lt in E; pose proof (bitsValue_nonneg p); lia.
  - simpl in Hc; destruct Hc as [<-|[<-|[<-|[<-|[]]]]]; reflexivity.
Qed.

Lemma valueLabel_binary_and_marker_witness :
  1 < 8 /\ allBinary "0101" = true /\ (String.length "0101" <= 53)%nat /\
  stopsBinary "x1" /\ (0 <= 1) /\
  valueLabel 8 (String.append "0101" "x1") = "0x5"%string /\
  valueLabel 8 (String "z" "01") = "0xNAN"%string /\
  valueLabel 1 "zz" = "zz"%string.
Proof.
  assert (Hs : stopsBinary "x1") by (split; discriminate).
  split; [lia|split; [reflexivity|split; [vm_compute; lia|split; [exact Hs|split; [lia|]]]]].
  exact (valueLabel_binary_and_marker 8 1 "0101" "x1" "z" "01" "zz"
           ltac:(lia) eq_refl ltac:(discriminate) ltac:(vm_compute; lia) Hs
           ltac:(simpl; auto) ltac:(lia)).
Defined.

End WaveformFacts.

(* ================================================================== *)
(** * Further properties of the run lifecycle *)

Module StoreOpsFacts.
Import Agent Store StoreOps Fixtures.






(** A creation request that rejects leaves no record, surfaces its
    message in the store's [error], and leaves the retired stream closed
    yet still referenced by [_stream]. *)
Theorem failed_start_leaves_no_run (s : Store) (msg : string) (c : nat)
  (Hs : stream s = Some c) :
  let s1 := startRejected msg (startBegin s) in
  currentRun s1 = None /\ isStarting s1 = false /\ isConnected s1 = false /\
  storeError s1 = Some msg /\ stream s1 = Some c /\ In c (closedStreams s1).
Proof.
  cbv zeta; unfold startRejected, startBegin; rewrite Hs.
  repeat split; first [apply StoreFacts.closeStream_in | simpl; rewrite ?Hs; reflexivity].
Qed.

Lemma failed_start_leaves_no_run_witness :
  stream liveStore = Some 0%nat /\
  (let s1 := startRejected "Failed to start optimization" (startBegin liveStore) in
   currentRun s1 = None /\ isStarting s1 = false /\ isConnected s1 = false /\
   storeError s1 = Some "Failed to start optimization"%string /\ stream s1 = Some 0%nat /\
   In 0%nat (closedStreams s1)).
Proof.
  split; [reflexivity|].
  exact (failed_start_leaves_no_run liveStore _ 0 eq_refl).
Defined.

(** A restart closes the previous stream and opens a fresh one; but the
    old socket's [onClose], firing after the restart, clears [_stream],
    after which [stopOptimization] no longer closes the new stream. *)
Theorem late_close_detaches_new_stream (s : Store) (rid design tb : string) (c : nat)
  (Hf : streamsFresh s) (Hs : stream s = Some c) :
  let s1 := startResolved rid design tb (startBegin s) in
  stream s1 = Some (nextStream s) /\ c <> nextStream s /\ In c (closedStreams s1) /\
  ~ In (nextStream s) (closedStreams s1) /\
  stream (onClose s1) = None /\
  ~ In (nextStream s) (closedStreams (stopOptimization (onClose s1))).
Proof.
  destruct Hf as [Hcl Hst]; pose proof (Hst c Hs) as Hc.
  assert (Hnot : ~ In (nextStream s) (closedStreams (closeStream c s))).
  { cbn [closedStreams closeStream].
    destruct (existsb (Nat.eqb c) (closedStreams s)).
    - intro Hin; rewrite Forall_forall in Hcl; specialize (Hcl _ Hin); lia.
    - intros [E|Hin]; [lia|]; rewrite Forall_forall in Hcl; specialize (Hcl _ Hin); lia. }
  cbv zeta; unfold startResolved, startBegin; rewrite Hs.
  repeat split; cbn [stream closedStreams nextStream onClose stopOptimization]; auto.
  - lia.
  - apply StoreFacts.closeStream_in.
Qed.

Lemma late_close_detaches_new_stream_witness :
  streamsFresh liveStore /\ stream liveStore = Some 0%nat /\
  (let s1 := startResolved "run-2" "d" "t" (startBegin liveStore) in
   stream s1 = Some 1%nat /\ 0%nat <> 1%nat /\ In 0%nat (closedStreams s1) /\
   ~ In 1%nat (closedStreams s1) /\ stream (onClose s1) = None /\
   ~ In 1%nat (closedStreams (stopOptimization (onClose s1)))).
Proof.
  assert (Hf : streamsFresh liveStore).
  { split; [vm_compute; apply Forall_nil|]; intros c Hc; vm_compute in Hc; injection Hc as <-; vm_compute; lia. }
  split; [exact Hf|split; [reflexivity|]].
  exact (late_close_detaches_new_stream liveStore "run-2" "d" "t" 0 Hf eq_refl).
Defined.

(** A message with a non-empty [error] leaves the record as it was,
    surfaces the error in the store and closes its stream; an unparseable
    frame surfaces a fixed message and leaves the stream open. *)
Theorem error_message_closes_stream (c : nat) (d : StreamStep) (e : string) (s : Store)
  (He : step_error d = Some e) (Hne : e <> EmptyString) :
  let s1 := channelMessage c (Parsed d) s in
  currentRun s1 = currentRun s /\ storeError s1 = Some e /\ isConnected s1 = false /\
  In c (closedStreams s1) /\
  currentRun (channelMessage c Unparseable s) = currentRun s /\
  storeError (channelMessage c Unparseable s) = Some "Failed to parse server message"%string /\
  closedStreams (channelMessage c Unparseable s) = closedStreams s.
Proof.
  cbv zeta; unfold channelMessage; rewrite He.
  assert (Ht : err_truthy (Some e) = true).
  { simpl; destruct (String.eqb e EmptyString) eqn:E; [|reflexivity].
    apply String.eqb_eq in E; contradiction. }
  rewrite Ht; repeat split; apply StoreFacts.closeStream_in.
Qed.

Lemma error_message_closes_stream_witness :
  let d := mkStep 2 EmptyString None None EmptyString false (Some "boom"%string) false in
  step_error d = Some "boom"%string /\ "boom"%string <> EmptyString /\
  currentRun (channelMessage 0 (Parsed d) liveStore) = currentRun liveStore.
Proof.
  cbv zeta; split; [reflexivity|split; [discriminate|]].
  exact (proj1 (error_message_closes_stream 0
           (mkStep 2 EmptyString None None EmptyString false (Some "boom"%string) false)
           "boom" liveStore eq_refl ltac:(discriminate))).
Defined.

End StoreOpsFacts.

(* ================================================================== *)
(** * Further properties of the run record *)

Module RunRecordFacts.
Import Agent Fixtures.

(** The run identity, the mode and the testbench of a record are never
    changed by stream messages. *)
Theorem identity_fields_fixed (ms : list StreamStep) (r : OptimizationRun) :
  runId (applySteps ms r) = runId r /\ mode (applySteps ms r) = mode r /\
  testbenchCode (applySteps ms r) = testbenchCode r.
Proof.
  revert r; induction ms as [|m ms IH]; intro r; [auto|].
  simpl; destruct (IH (applyStep m r)) as [A [B C]]; rewrite A, B, C; auto.
Qed.

Lemma str_or_nonempty_iff (a b : string) :
  str_or a b <> EmptyString <-> a <> EmptyString \/ b <> EmptyString.
Proof.
  unfold str_or; destruct (String.eqb a EmptyString) eqn:E.
  - apply String.eqb_eq in E; subst a; split; [auto|intros [H|H]; [contradiction|exact H]].
  - apply String.eqb_neq in E; split; [auto|intros _; exact E].
Qed.

Lemma str_or_in (a b : string) : str_or a b = a \/ str_or a b = b.
Proof. unfold str_or; destruct (String.eqb a EmptyString); auto. Qed.

(** Sparse fields are never erased, each on its own: after any messages
    the design code is non-empty exactly when the starting code or the
    code of some message is, and it is always the starting code or one
    carried by a message; the same holds for the reasoning (so a fresh
    run's empty reasoning becomes non-empty at the first message that
    carries some, and stays so). *)
Theorem sparse_fields_never_erased (ms : list StreamStep) (r : OptimizationRun) :
  (code (applySteps ms r) <> EmptyString <->
   code r <> EmptyString \/ Exists (fun m => step_code m <> EmptyString) ms) /\
  In (code (applySteps ms r)) (code r :: map step_code ms) /\
  (agentReasoning (applySteps ms r) <> EmptyString <->
   agentReasoning r <> EmptyString \/ Exists (fun m => step_reasoning m <> EmptyString) ms) /\
  In (agentReasoning (applySteps ms r)) (agentReasoning r :: map step_reasoning ms).
Proof.
  revert r; induction ms as [|m ms IH]; intro r.
  - cbn [applySteps map].
    assert (Ex : forall P : StreamStep -> Prop, ~ Exists P []) by (intros P H; inversion H).
    split; [|split; [left; reflexivity|split; [|left; reflexivity]]];
      split; [intro H; left; exact H|intros [H|H]; [exact H|destruct (Ex _ H)]|
              intro H; left; exact H|intros [H|H]; [exact H|destruct (Ex _ H)]].
  - cbn [applySteps map]; destruct (IH (applyStep m r)) as [A [B [C D]]].
    change (code (applyStep m r)) with (str_or (step_code m) (code r)) in A, B.
    change (agentReasoning (applyStep m r))
      with (str_or (step_reasoning m) (agentReasoning r)) in C, D.
    pose proof (str_or_nonempty_iff (step_code m) (code r)) as Sc.
    pose proof (str_or_nonempty_iff (step_reasoning m) (agentReasoning r)) as Sr.
    pose proof (Exists_cons (fun m => step_code m <> EmptyString) m ms) as Ec.
    pose proof (Exists_cons (fun m => step_reasoning m <> EmptyString) m ms) as Er.
    cbv beta in Ec, Er.
    split; [clear - A Sc Ec; tauto|split; [|split; [clear - C Sr Er; tauto|]]].
    + destruct B as [B|B]; [|right; right; exact B].
      destruct (str_or_in (step_code m) (code r)) as [E|E]; rewrite <- B, E;
        [right; left|left]; reflexivity.
    + destruct D as [D|D]; [|right; right; exact D].
      destruct (str_or_in (step_reasoning m) (agentReasoning r)) as [E|E]; rewrite <- D, E;
        [right; left|left]; reflexivity.
Qed.

(** Status and the [done] flag agree: [Running] exactly when not done,
    [Completed] or [Failed] when done; this holds from a fresh record on,
    whatever messages arrive. *)
Theorem status_matches_done (ms : list StreamStep) (r : OptimizationRun)
  (H : (done r = false /\ status r = Running) \/
       (done r = true /\ (status r = Completed \/ status r = Failed))) :
  let r' := applySteps ms r in
  (done r' = false /\ status r' = Running) \/
  (done r' = true /\ (status r' = Completed \/ status r' = Failed)).
Proof.
  cbv zeta; revert r H; induction ms as [|m ms IH]; intros r H; [exact H|].
  simpl; apply IH; unfold applyStep; cbn [done status].
  destruct (step_done m); [right; split; [reflexivity|]|left; auto].
  destruct (err_truthy (step_error m)); auto.
Qed.

Lemma status_matches_done_witness :
  let r := initialRun "run-1" "module m; endmodule" "tb" in
  ((done r = false /\ status r = Running) \/
   (done r = true /\ (status r = Completed \/ status r = Failed))) /\
  (let r' := applySteps [lateStep] r in
   (done r' = false /\ status r' = Running) \/
   (done r' = true /\ (status r' = Completed \/ status r' = Failed))).
Proof.
  cbv zeta.
  assert (H : (done (initialRun "run-1" "module m; endmodule" "tb") = false /\
               status (initialRun "run-1" "module m; endmodule" "tb") = Running) \/
              (done (initialRun "run-1" "module m; endmodule" "tb") = true /\
               (status (initialRun "run-1" "module m; endmodule" "tb") = Completed \/
                status (initialRun "run-1" "module m; endmodule" "tb") = Failed)))
    by (left; split; reflexivity).
  split; [exact H|].
  exact (status_matches_done [lateStep] _ H).
Defined.

End RunRecordFacts.

(* ================================================================== *)
(** * Properties of the waveform store *)

Module WaveStoreFacts.
Import Waveform WaveStore.

Lemma scanMaxTime_spec (vs : list Ev) (m : Z) :
  m <= scanMaxTime m vs /\
  (forall e, In e vs -> time e <= scanMaxTime m vs) /\
  (scanMaxTime m vs = m \/ exists e, In e vs /\ scanMaxTime m vs = time e).
Proof.
  unfold scanMaxTime; revert m; induction vs as [|v vs IH]; intro m; simpl.
  - split; [lia|split; [tauto|auto]].
  - set (m' := if m <? time v then time v else m).
    assert (Hm : m <= m' /\ time v <= m' /\ (m' = m \/ m' = time v)).
    { unfold m'; destruct (m <? time v) eqn:E;
        [apply Z.ltb_lt in E|apply Z.ltb_ge in E]; lia. }
    destruct (IH m') as [A [B C]].
    split; [lia|split].
    + intros e [<-|He]; [lia|auto].
    + destruct C as [C|[e [He C]]]; [|right; exists e; auto].
      destruct Hm as [_ [_ [D|D]]]; [left; lia|right; exists v; split; [auto|lia]].
Qed.

Lemma signalsMaxTime_spec (sigs : list VcdSignal) (m : Z) :
  let M := fold_left (fun m sig => scanMaxTime m (sigValues sig)) sigs m in
  m <= M /\
  (forall sg e, In sg sigs -> In e (sigValues sg) -> time e <= M) /\
  (M = m \/ exists sg e, In sg sigs /\ In e (sigValues sg) /\ M = time e).
Proof.
  cbv zeta; revert m; induction sigs as [|sg sigs IH]; intro m; simpl.
  - split; [lia|split; [tauto|auto]].
  - destruct (scanMaxTime_spec (sigValues sg) m) as [A [B C]].
    destruct (IH (scanMaxTime m (sigValues sg))) as [D [E F]].
    split; [lia|split].
    + intros sg' e [<-|Hs] He; [specialize (B e He); lia|exact (E sg' e Hs He)].
    + destruct F as [F|[sg' [e [Hs [He F]]]]]; [|right; exists sg', e; auto].
      destruct C as [C|[e [He C]]]; [left; lia|].
      right; exists sg, e; split; [auto|split; [exact He|lia]].
Qed.

(** A capture without error replaces the signals wholesale (never merges
    them with the previous ones), rewinds the cursor to 0 and sets
    [maxTime] to the largest event time over all signals (0 when there is
    no event), an upper bound of every event time. *)
Theorem capture_sets_signals_and_max_time (res : VcdResult) (w : WaveformState)
  (sigs : list VcdSignal)
  (He : Agent.err_truthy (res_error res) = false) (Hs : res_signals res = Some sigs) :
  let w' := runResolved res w in
  signals w' = sigs /\ currentTime w' = 0 /\ werror w' = None /\ 0 <= maxTime w' /\
  (forall sg e, In sg sigs -> In e (sigValues sg) -> time e <= maxTime w') /\
  (maxTime w' = 0 \/ exists sg e, In sg sigs /\ In e (sigValues sg) /\ maxTime w' = time e).
Proof.
  cbv zeta; unfold runResolved; rewrite He, Hs; cbn [signals currentTime werror maxTime].
  destruct (signalsMaxTime_spec sigs 0) as [A [B C]].
  repeat split; auto.
Qed.

Lemma capture_sets_signals_and_max_time_witness :
  let res := mkVcd true (Some "/tmp/sim.vcd"%string) (Some [captureSignal]) None in
  Agent.err_truthy (res_error res) = false /\ res_signals res = Some [captureSignal] /\
  maxTime (runResolved res initialWaveformState) = 10 /\
  (forall sg e, In sg [captureSignal] -> In e (sigValues sg) ->
                time e <= maxTime (runResolved res initialWaveformState)).
Proof.
  cbv zeta; split; [reflexivity|split; [reflexivity|split; [reflexivity|]]].
  exact (proj1 (proj2 (proj2 (proj2 (proj2 (capture_sets_signals_and_max_time
           (mkVcd true (Some "/tmp/sim.vcd"%string) (Some [captureSignal]) None)
           initialWaveformState [captureSignal] eq_refl eq_refl)))))).
Defined.

(** A call of [runSimulationWithVcd] that fails, with a result that
    reports an error or with a rejected request, shows [isLoading] and no
    error while it is pending, and then gives back the waveform it started
    from (signals, VCD path, pass flag, cursor and [maxTime]) with
    [isLoading] false and only the error recorded. *)
Theorem failed_capture_keeps_waveform (res : VcdResult) (msg : string) (w : WaveformState)
  (He : Agent.err_truthy (res_error res) = true) :
  let kept e := {| signals := signals w; vcdPath := vcdPath w; simPassed := simPassed w;
                   currentTime := currentTime w; maxTime := maxTime w; isLoading := false;
                   werror := e |} in
  isLoading (runBegin w) = true /\ werror (runBegin w) = None /\
  runResolved res (runBegin w) = kept (res_error res) /\
  runRejected msg (runBegin w) = kept (Some msg).
Proof. cbv zeta; unfold runResolved; rewrite He; repeat split. Qed.

Lemma failed_capture_keeps_waveform_witness :
  let res := mkVcd false None None (Some "iverilog failed"%string) in
  let w := runResolved (mkVcd true (Some "/tmp/sim.vcd"%string) (Some [captureSignal]) None)
             initialWaveformState in
  Agent.err_truthy (res_error res) = true /\
  vcdPath (runResolved res (runBegin w)) = Some "/tmp/sim.vcd"%string /\
  signals (runResolved res (runBegin w)) = [captureSignal] /\
  maxTime (runRejected "network down" (runBegin w)) = 10.
Proof.
  cbv zeta; split; [reflexivity|].
  destruct (failed_capture_keeps_waveform (mkVcd false None None (Some "iverilog failed"%string))
              "network down"
              (runResolved (mkVcd true (Some "/tmp/sim.vcd"%string) (Some [captureSignal]) None)
                 initialWaveformState)
              eq_refl) as [_ [_ [A B]]].
  rewrite A, B; split; [reflexivity|split; reflexivity].
Defined.

(** [setCurrentTime] keeps the cursor in [[0, maxTime]]: a time inside
    the range is taken as it is, one below is raised to 0, one above is
    lowered to [maxTime]. *)
Theorem setCurrentTime_clamps (t : Z) (w : WaveformState) (Hm : 0 <= maxTime w) :
  let c := currentTime (setCurrentTime t w) in
  0 <= c <= maxTime w /\
  (0 <= t <= maxTime w -> c = t) /\ (t < 0 -> c = 0) /\ (maxTime w < t -> c = maxTime w).
Proof. cbv zeta; simpl; lia. Qed.

Lemma setCurrentTime_clamps_witness :
  let w := runResolved (mkVcd true None (Some [captureSignal]) None) initialWaveformState in
  0 <= maxTime w /\ currentTime (setCurrentTime 42 w) = 10.
Proof.
  cbv zeta; split; [vm_compute; discriminate|].
  apply (proj2 (proj2 (proj2 (setCurrentTime_clamps 42
           (runResolved (mkVcd true None (Some [captureSignal]) None) initialWaveformState)
           ltac:(vm_compute; discriminate))))).
  vm_compute; reflexivity.
Defined.

End WaveStoreFacts.

(* ================================================================== *)
(** * Properties of the single-bit trace *)

Module SinglePathFacts.
Import Waveform SinglePath.

Lemma pathPoints_no_move (mt ts : Z) (l : list Ev) (lv : option string) (i : nat) :
  forallb (fun c => negb (isMove c)) (pathPoints mt ts lv (S i) l) = true.
Proof.
  revert lv i; induction l as [|v rest IH]; intros lv i; [reflexivity|].
  cbn [pathPoints]; rewrite !forallb_app.
  rewrite (IH (Some (value v)) (S i)), andb_true_r.
  destruct lv as [lv|]; [destruct (negb (String.eqb lv (value v)))|]; reflexivity.
Qed.

Lemma lastOpt_app {A} (a b : list A) :
  lastOpt (a ++ b) = match lastOpt b with Some x => Some x | None => lastOpt a end.
Proof.
  induction a as [|x a IH].
  - simpl; destruct (lastOpt b); reflexivity.
  - change ((x :: a) ++ b) with (x :: (a ++ b)).
    rewrite (WaveformFacts.lastOpt_cons x (a ++ b)), IH, (WaveformFacts.lastOpt_cons x a).
    destruct (lastOpt b); reflexivity.
Qed.

Lemma pathPoints_last (mt ts : Z) (l : list Ev) (lv : option string) (i : nat) (e : Ev) :
  lastOpt l = Some e ->
  lastOpt (pathPoints mt ts lv i l) = Some (Line (mt * ts) (levelY (value e))).
Proof.
  revert lv i; induction l as [|v rest IH]; intros lv i H; [discriminate H|].
  cbn [pathPoints]; rewrite !lastOpt_app.
  destruct rest as [|w rest'].
  - injection H as <-; reflexivity.
  - rewrite (IH (Some (value v)) (S i) H); reflexivity.
Qed.

Lemma pathPoints_length (mt ts : Z) (l : list Ev) (lv : string) (i : nat) :
  length (pathPoints mt ts (Some lv) (S i) l) = (length l + 2 * changes (lv :: map value l))%nat.
Proof.
  revert lv i; induction l as [|v rest IH]; intros lv i; [reflexivity|].
  cbn [pathPoints map changes]; rewrite !length_app, IH.
  destruct (String.eqb lv (value v)); simpl; lia.
Qed.

Lemma length_insertByTime (e : Ev) (l : list Ev) : length (insertByTime e l) = S (length l).
Proof.
  induction l as [|x xs IH]; simpl; [reflexivity|].
  destruct (time e <=? time x); simpl; [reflexivity|rewrite IH; reflexivity].
Qed.

Lemma length_sortByTime (l : list Ev) : length (sortByTime l) = length l.
Proof. induction l; simpl; [reflexivity|rewrite length_insertByTime; auto]. Qed.

Lemma ss_app (a b : list Z) :
  StronglySorted Z.le a -> StronglySorted Z.le b ->
  (forall x y, In x a -> In y b -> x <= y) -> StronglySorted Z.le (a ++ b).
Proof.
  induction 1 as [|x a Ha IH Hx]; intros Hb Hab; simpl; [exact Hb|].
  constructor.
  - apply IH; [exact Hb|intros; apply Hab; simpl; auto].
  - apply Forall_app; split; [exact Hx|].
    apply Forall_forall; intros y Hy; apply Hab; simpl; auto.
Qed.

Lemma ss_const (x : Z) (a : list Z) : Forall (fun y => y = x) a -> StronglySorted Z.le a.
Proof.
  induction 1 as [|y a Hy Ha IH]; constructor; [exact IH|].
  eapply Forall_impl; [|exact Ha]; intros z Hz; cbv beta in Hz; lia.
Qed.

Lemma pathPoints_monotone (mt ts : Z) (l : list Ev) (lv : option string) (i : nat) (lo : Z) :
  0 <= ts -> StronglySorted timeLe l -> Forall (fun e => lo <= time e /\ time e <= mt) l ->
  StronglySorted Z.le (map cmdX (pathPoints mt ts lv i l)) /\
  Forall (fun x => lo * ts <= x) (map cmdX (pathPoints mt ts lv i l)).
Proof.
  intros Hts Hs; revert lv i lo; induction Hs as [|v rest Hs IH Hf]; intros lv i lo Hb;
    [split; constructor|].
  inversion Hb as [|? ? [Hlo Hmt] Hbr]; subst.
  set (n := match rest with [] => mt | w :: _ => time w end).
  assert (Hvn : time v <= n).
  { unfold n; destruct rest as [|w r']; [exact Hmt|].
    inversion Hf; subst; assumption. }
  assert (Hrest : Forall (fun e => n <= time e /\ time e <= mt) rest).
  { unfold n; destruct rest as [|w r']; [constructor|].
    inversion Hs as [|? ? Hs' Hw]; subst.
    inversion Hbr as [|? ? [_ Hwm] Hbr']; subst.
    constructor; [lia|].
    apply Forall_forall; intros e He.
    rewrite Forall_forall in Hw, Hbr'; split; [apply (Hw e He)|apply (Hbr' e He)]. }
  destruct (IH (Some (value v)) (S i) n Hrest) as [Hss Hge].
  set (x := time v * ts).
  set (h := match lv with
            | Some lv0 => if negb (String.eqb lv0 (value v))
                          then [Line x (levelY lv0); Line x (levelY (value v))]
                          else if Nat.eqb i 0 then [Move x (levelY (value v))] else []
            | None => if Nat.eqb i 0 then [Move x (levelY (value v))] else []
            end).
  assert (Hh : Forall (fun y => y = x) (map cmdX h)).
  { unfold h; destruct lv as [lv0|]; [destruct (negb (String.eqb lv0 (value v)))|];
      [| |]; try destruct (Nat.eqb i 0); repeat constructor. }
  assert (Hx : x <= n * ts) by (unfold x; nia).
  assert (Hlx : lo * ts <= x) by (unfold x; nia).
  change (pathPoints mt ts lv i (v :: rest))
    with (h ++ [Line (n * ts) (levelY (value v))] ++ pathPoints mt ts (Some (value v)) (S i) rest).
  rewrite !map_app; cbn [map cmdX app].
  rewrite Forall_forall in Hh, Hge.
  split.
  - apply ss_app; [apply (ss_const x), Forall_forall, Hh| |].
    + constructor; [exact Hss|apply Forall_forall; intros y Hy; apply Hge, Hy].
    + intros a b Ha [<-|Hb']; rewrite (Hh a Ha); [exact Hx|specialize (Hge b Hb'); lia].
  - apply Forall_app; split; [apply Forall_forall; intros a Ha; rewrite (Hh a Ha); exact Hlx|].
    constructor; [lia|apply Forall_forall; intros b Hb'; specialize (Hge b Hb'); nia].
Qed.

(** The single-bit trace starts with its only [M] command, at the first
    event in time order, so the [.replace(/^L/, 'M')] of the source never
    fires; it ends with a horizontal segment to [maxTime] at the level of
    the last event. Widths other than 1 draw no trace. *)
Theorem pathD_starts_with_move_ends_at_maxTime (values : list Ev) (mt ts : Z)
  (e elast : Ev) (rest : list Ev)
  (Hs : sortByTime values = e :: rest) (Hl : lastOpt (e :: rest) = Some elast) :
  (exists tl, pathD 1 values mt ts = Move (time e * ts) (levelY (value e)) :: tl /\
              forallb (fun c => negb (isMove c)) tl = true) /\
  lastOpt (pathD 1 values mt ts) = Some (Line (mt * ts) (levelY (value elast))) /\
  (forall w, w <> 1 -> pathD w values mt ts = []).
Proof.
  destruct values as [|v vs]; [discriminate Hs|].
  split; [|split].
  - unfold pathD; rewrite Hs; cbn [Z.eqb pathPoints Nat.eqb app].
    eexists; split; [reflexivity|].
    cbn [forallb isMove negb andb]; apply pathPoints_no_move.
  - unfold pathD; rewrite Hs; apply pathPoints_last, Hl.
  - intros w Hw; unfold pathD; apply Z.eqb_neq in Hw; rewrite Hw; reflexivity.
Qed.

Lemma pathD_starts_with_move_ends_at_maxTime_witness :
  sortByTime Fixtures.roundTripEvents = [mkEv 0 "0"; mkEv 10 "1"; mkEv 20 "0"] /\
  lastOpt [mkEv 0 "0"; mkEv 10 "1"; mkEv 20 "0"] = Some (mkEv 20 "0") /\
  lastOpt (pathD 1 Fixtures.roundTripEvents 30 2) = Some (Line (30 * 2) (levelY "0")).
Proof.
  split; [reflexivity|split; [reflexivity|]].
  exact (proj1 (proj2 (pathD_starts_with_move_ends_at_maxTime Fixtures.roundTripEvents 30 2
           (mkEv 0 "0") (mkEv 20 "0") [mkEv 10 "1"; mkEv 20 "0"] eq_refl eq_refl))).
Defined.

(** A non-empty single-bit trace has one command per event plus the
    opening [M], and two more for each change of value between
    consecutive events in time order (the vertical edge). *)
Theorem pathD_length (values : list Ev) (mt ts : Z) (Hne : values <> []) :
  length (pathD 1 values mt ts) =
  (1 + length values + 2 * changes (map value (sortByTime values)))%nat.
Proof.
  destruct values as [|v vs]; [contradiction|].
  rewrite <- (length_sortByTime (v :: vs)).
  unfold pathD.
  destruct (sortByTime (v :: vs)) as [|e rest] eqn:Es.
  - pose proof (length_sortByTime (v :: vs)) as L; rewrite Es in L; discriminate L.
  - replace (Z.eqb 1 1) with true by reflexivity.
    assert (L : length (pathPoints mt ts None 0 (e :: rest)) =
                (2 + length (pathPoints mt ts (Some (value e)) 1 rest))%nat).
    { cbn [pathPoints]; rewrite !length_app; reflexivity. }
    rewrite L, pathPoints_length; cbn [length map]; lia.
Qed.

Lemma pathD_length_witness :
  Fixtures.roundTripEvents <> [] /\
  length (pathD 1 Fixtures.roundTripEvents 30 2) = 8%nat.
Proof.
  split; [discriminate|].
  rewrite (pathD_length Fixtures.roundTripEvents 30 2 ltac:(discriminate)).
  reflexivity.
Defined.

(** Unlike the multi-bit boxes, the single-bit trace never runs back in
    time: when every event time is at most [maxTime] and the scale is not
    negative, its x-coordinates never decrease, whatever the input order. *)
Theorem pathD_x_nondecreasing (values : list Ev) (mt ts : Z)
  (Ht : Forall (fun e => time e <= mt) values) (Hts : 0 <= ts) :
  StronglySorted Z.le (map cmdX (pathD 1 values mt ts)).
Proof.
  unfold pathD; destruct values as [|v vs]; [constructor|]; cbn [Z.eqb].
  pose proof (WaveformFacts.sorted_sortByTime (v :: vs)) as Hs.
  destruct (sortByTime (v :: vs)) as [|e rest] eqn:Es; [constructor|].
  apply (pathPoints_monotone mt ts (e :: rest) None 0 (time e) Hts Hs).
  apply Forall_forall; intros x Hx; split.
  - destruct Hx as [<-|Hx]; [lia|].
    inversion Hs as [|? ? _ Hf]; subst; rewrite Forall_forall in Hf; exact (Hf x Hx).
  - rewrite Forall_forall in Ht; apply Ht, (WaveformFacts.In_sortByTime x (v :: vs)).
    rewrite Es; exact Hx.
Qed.

Lemma pathD_x_nondecreasing_witness :
  Forall (fun e => time e <= 30) [mkEv 20 "0"; mkEv 0 "0"; mkEv 10 "1"] /\ 0 <= 2 /\
  StronglySorted Z.le (map cmdX (pathD 1 [mkEv 20 "0"; mkEv 0 "0"; mkEv 10 "1"] 30 2)).
Proof.
  assert (Ht : Forall (fun e => time e <= 30) [mkEv 20 "0"; mkEv 0 "0"; mkEv 10 "1"]).
  { repeat constructor; simpl; lia. }
  split; [exact Ht|split; [lia|]].
  exact (pathD_x_nondecreasing _ 30 2 Ht ltac:(lia)).
Defined.

End SinglePathFacts.

(* ================================================================== *)
(** * Properties of the LUT statistics store *)

Module LutStatsFacts.
Import Agent LutStatsStore.

Section WithFloor.
Variable floor07 : Z -> Z.

Definition nonEmptyReasonings (ms : list StreamStep) : list string :=
  filter (fun r => negb (String.eqb r EmptyString)) (map step_reasoning ms).

Lemma updateFromRun_reasoning (m : StreamStep) (cur : option LutStats) :
  reasoning (updateFromRun floor07 m cur) =
  match cur with Some c => reasoning c | None => [] end ++ nonEmptyReasonings [m].
Proof.
  unfold updateFromRun, nonEmptyReasonings; cbn [reasoning map filter].
  destruct (String.eqb (step_reasoning m) EmptyString); reflexivity.
Qed.

(** The reasoning list is an append-only log: after any non-empty
    sequence of updates it is the previous log followed by the non-empty
    reasonings of the messages, in order. *)
Theorem reasoning_log_appends (m : StreamStep) (ms : list StreamStep) (cur : option LutStats) :
  match updatesFromRun floor07 (m :: ms) cur with
  | Some st => reasoning st = match cur with Some c => reasoning c | None => [] end
                              ++ nonEmptyReasonings (m :: ms)
  | None => False
  end.
Proof.
  revert m cur; induction ms as [|m' ms IH]; intros m cur.
  - simpl; apply updateFromRun_reasoning.
  - specialize (IH m' (Some (updateFromRun floor07 m cur))).
    change (updatesFromRun floor07 (m :: m' :: ms) cur)
      with (updatesFromRun floor07 (m' :: ms) (Some (updateFromRun floor07 m cur))).
    destruct (updatesFromRun floor07 (m' :: ms) (Some (updateFromRun floor07 m cur))); [|exact IH].
    rewrite IH, updateFromRun_reasoning, <- app_assoc.
    f_equal; unfold nonEmptyReasonings.
    change (m :: m' :: ms) with ([m] ++ (m' :: ms)); rewrite map_app, filter_app.
    reflexivity.
Qed.

(** [originalLuts] and [targetLuts] are fixed by the first update that
    makes them non-zero: later updates never change them. *)
Theorem baseline_luts_sticky (ms : list StreamStep) (c : LutStats)
  (Ho : originalLuts c <> 0) (Ht : targetLuts c <> 0) :
  option_map originalLuts (updatesFromRun floor07 ms (Some c)) = Some (originalLuts c) /\
  option_map targetLuts (updatesFromRun floor07 ms (Some c)) = Some (targetLuts c).
Proof.
  revert c Ho Ht; induction ms as [|m ms IH]; intros c Ho Ht; [split; reflexivity|].
  assert (Eo : originalLuts (updateFromRun floor07 m (Some c)) = originalLuts c).
  { simpl; apply Z.eqb_neq in Ho; rewrite Ho; reflexivity. }
  assert (Et : targetLuts (updateFromRun floor07 m (Some c)) = targetLuts c).
  { simpl; apply Z.eqb_neq in Ht; rewrite Ht; reflexivity. }
  simpl; rewrite <- Eo, <- Et; apply IH; congruence.
Qed.

End WithFloor.

Lemma baseline_luts_sticky_witness :
  let c := mkStats 120 90 84 [120; 90] ["shared adder"%string] in
  let ms := [mkStep 5 EmptyString (Some 70) (Some [70]) EmptyString false None false] in
  originalLuts c <> 0 /\ targetLuts c <> 0 /\
  option_map originalLuts (updatesFromRun (fun x => x * 7 / 10) ms (Some c)) = Some 120 /\
  option_map targetLuts (updatesFromRun (fun x => x * 7 / 10) ms (Some c)) = Some 84.
Proof.
  cbv zeta; split; [discriminate|split; [discriminate|]].
  exact (baseline_luts_sticky (fun x => x * 7 / 10)
           [mkStep 5 EmptyString (Some 70) (Some [70]) EmptyString false None false]
           (mkStats 120 90 84 [120; 90] ["shared adder"%string])
           ltac:(discriminate) ltac:(discriminate)).
Defined.

End LutStatsFacts.

(* ================================================================== *)
(** * Properties of the top-function choice *)

Module TopFunctionFacts.
Import TopFunction.

Lemma find_filter {A} (p g : A -> bool) (l : list A) :
  find g (filter p l) = find (fun x => p x && g x) l.
Proof.
  induction l as [|x l IH]; simpl; [reflexivity|].
  destruct (p x); simpl; [destruct (g x)|]; auto.
Qed.

(** The chosen top function is the first captured name that is
    non-empty, does not start with an underscore and is not [main]; when
    there is none it is ["main"]. *)
Theorem pickTopFunction_first_eligible (captures : list string) :
  pickTopFunction captures =
  match find (fun f => negb (String.eqb f EmptyString) && negb (startsWithUnderscore f)
                       && negb (String.eqb f "main")) captures with
  | Some f => f
  | None => "main"%string
  end.
Proof.
  unfold pickTopFunction, collectFunctions; rewrite find_filter.
  destruct (find _ captures) as [f|] eqn:E; [reflexivity|].
  destruct (filter _ captures) as [|f fs] eqn:F; [reflexivity|].
  assert (Hf : In f (filter (fun f => negb (String.eqb f EmptyString) && negb (startsWithUnderscore f))
                            captures)) by (rewrite F; left; reflexivity).
  apply filter_In in Hf as [Hin Hp].
  pose proof (find_none _ _ E f Hin) as Hg; cbv beta in Hg.
  rewrite Hp in Hg; simpl in Hg.
  destruct (String.eqb f "main") eqn:M; [|discriminate Hg].
  apply String.eqb_eq in M; subst f; reflexivity.
Qed.

End TopFunctionFacts.

(* ================================================================== *)
(** * Further properties of the waveform rendering *)

Module WaveformRenderFacts.
Import Waveform.

Lemma scanLast_from (t : Z) (lv : string) (l : list Ev) :
  scanLast t lv l = lv \/ In (scanLast t lv l) (map value l).
Proof.
  revert lv; induction l as [|v l IH]; intros lv; simpl; [left; reflexivity|].
  destruct (t <? time v); [left; reflexivity|].
  destruct (IH (value v)) as [E|E]; rewrite ?E; right; [left; reflexivity|right; exact E].
Qed.

(** On a non-empty event list the value shown at the cursor is always the
    value of one of the events: [currentValue] never invents a value,
    whatever the cursor and the order of the events. *)
Theorem currentValue_is_event_value (values : list Ev) (t : Z) (Hne : values <> []) :
  In (currentValue values t) (map value values).
Proof.
  destruct values as [|e0 es] eqn:Ev; [congruence|].
  assert (Hsub : forall x, In x (map value (sortByTime (e0 :: es))) -> In x (map value (e0 :: es))).
  { intros x Hx; apply in_map_iff in Hx as [e [<- He]].
    apply in_map, WaveformFacts.In_sortByTime, He. }
  unfold currentValue; rewrite <- Ev.
  assert (Hs : sortByTime values <> []).
  { intros H; assert (In e0 (sortByTime values)) by (apply WaveformFacts.In_sortByTime; rewrite Ev; left; auto).
    rewrite H in *; contradiction. }
  rewrite Ev in Hs |- *; apply Hsub.
  destruct (sortByTime (e0 :: es)) as [|f fs]; [congruence|].
  destruct (scanLast_from t (value f) (f :: fs)) as [E|E]; rewrite ?E; [left; reflexivity|exact E].
Qed.

Lemma currentValue_is_event_value_witness :
  [mkEv 10 "1"; mkEv 0 "0"] <> [] /\
  In (currentValue [mkEv 10 "1"; mkEv 0 "0"] 7) ["1"; "0"]%string.
Proof.
  split; [discriminate|].
  exact (currentValue_is_event_value [mkEv 10 "1"; mkEv 0 "0"] 7 ltac:(discriminate)).
Defined.

(** The multi-bit boxes are chained in list order, for any input order:
    box [i] starts at event [i]'s time and shows its value, and ends where
    box [i+1] starts, the last box ending at [maxTime]. *)
Theorem valueBoxes_chain (values : list Ev) (maxTime : Z) (Hne : values <> []) :
  let bs := valueBoxes values maxTime in
  map (fun b => fst (fst b)) bs = map time values /\
  map (fun b => snd (fst b)) bs = tl (map time values) ++ [maxTime] /\
  map snd bs = map value values.
Proof.
  cbv zeta; induction values as [|v [|w rest] IH]; [congruence|split; [|split]; reflexivity|].
  destruct (IH ltac:(discriminate)) as [A [B C]].
  change (valueBoxes (v :: w :: rest) maxTime)
    with ((time v, time w, value v) :: valueBoxes (w :: rest) maxTime).
  cbn [map]; cbn [map] in A, B, C; rewrite A, B, C; split; [|split]; reflexivity.
Qed.

Lemma valueBoxes_chain_witness :
  [mkEv 5 "10"; mkEv 0 "01"] <> [] /\
  map (fun b => snd (fst b)) (valueBoxes [mkEv 5 "10"; mkEv 0 "01"] 8) = [0; 8].
Proof.
  split; [discriminate|].
  exact (proj1 (proj2 (valueBoxes_chain [mkEv 5 "10"; mkEv 0 "01"] 8 ltac:(discriminate)))).
Defined.

(** On events sorted by time and not later than [maxTime], every
    multi-bit box has a non-negative width: the boxes then tile
    [[first time, maxTime]] without overlap. *)
Theorem valueBoxes_sorted_widths (values : list Ev) (maxTime : Z)
  (Hs : StronglySorted timeLe values) (Hm : Forall (fun e => time e <= maxTime) values) :
  Forall (fun b => fst (fst b) <= snd (fst b)) (valueBoxes values maxTime).
Proof.
  induction Hs as [|v rest Hs IH Hf]; [constructor|].
  inversion Hm as [|? ? Hv Hr]; subst.
  simpl; constructor; [|apply IH, Hr].
  destruct rest as [|w rest]; cbn [fst snd]; [exact Hv|].
  inversion Hf as [|? ? Hw _]; exact Hw.
Qed.

Lemma valueBoxes_sorted_widths_witness :
  StronglySorted timeLe [mkEv 0 "01"; mkEv 5 "10"] /\
  Forall (fun e => time e <= 8) [mkEv 0 "01"; mkEv 5 "10"] /\
  Forall (fun b => fst (fst b) <= snd (fst b)) (valueBoxes [mkEv 0 "01"; mkEv 5 "10"] 8).
Proof.
  assert (Hs : StronglySorted timeLe [mkEv 0 "01"; mkEv 5 "10"]).
  { repeat constructor; unfold timeLe; simpl; lia. }
  assert (Hm : Forall (fun e => time e <= 8) [mkEv 0 "01"; mkEv 5 "10"]).
  { repeat constructor; simpl; lia. }
  split; [exact Hs|split; [exact Hm|]].
  exact (valueBoxes_sorted_widths [mkEv 0 "01"; mkEv 5 "10"] 8 Hs Hm).
Defined.

End WaveformRenderFacts.
